(** * restore_session.py: the archive builder, embedded and verified

    The script builds a constant table [structure] (tier -> folder names),
    opens the zip archive [zip_filename] for writing, writes one placeholder
    member per (tier, folder) pair and reports success on standard output.

    The embedding follows the script line by line.  Python statements become
    computations of a small state-and-exception monad [Py] over a [World]
    (the disk, a counter of I/O operations and standard output); the dict
    literal is an insertion-ordered association list; the [zipfile] calls
    that the script makes ([ZipFile(..., 'w')], [writestr], the [with]
    statement's [close]) are modelled on the world. *)

From Stdlib Require Import Ascii NArith Strings.Byte.
From stdpp Require Import gmap strings list.

(** ** Python values *)

(** [print] terminates its line with a line feed. *)
Definition newline : string := String (ascii_of_nat 10) EmptyString.

(** [str.encode("utf-8")].  A character of a Rocq string is a code point
    below 256: code points below 128 take one byte, the others two. *)
Definition byte_of_N (n : N) : byte := default x00 (Byte.of_N n).

Definition encode_char (c : ascii) : list byte :=
  let n := N_of_ascii c in
  if (n <? 128)%N then [byte_of_N n]
  else [byte_of_N (192 + n / 64); byte_of_N (128 + n mod 64)].

Fixpoint encode_utf8 (s : string) : list byte :=
  match s with
  | EmptyString => []
  | String c s' => encode_char c ++ encode_utf8 s'
  end.

(** [bytes.decode("utf-8")], for the code points a Rocq string can hold:
    [None] stands for a malformed sequence, or for a code point above 255. *)
Fixpoint decode_utf8 (bs : list byte) : option string :=
  match bs with
  | [] => Some EmptyString
  | b :: rest =>
      let n := Byte.to_N b in
      if (n <? 128)%N then String (ascii_of_N n) <$> decode_utf8 rest
      else if ((194 <=? n) && (n <? 196))%N then
        match rest with
        | b2 :: rest' =>
            let n2 := Byte.to_N b2 in
            if ((128 <=? n2) && (n2 <? 192))%N
            then String (ascii_of_N (64 * (n - 192) + (n2 - 128))) <$> decode_utf8 rest'
            else None
        | [] => None
        end
      else None
  end.

(** A [dict] keeps its keys in insertion order; assigning to a key that is
    already present replaces the value and keeps the key's position. *)
Abbreviation dict K V := (list (K * V)).

Fixpoint dict_set {V : Type} (k : string) (v : V) (d : dict string V) : dict string V :=
  match d with
  | [] => [(k, v)]
  | (k', v') :: d' =>
      if decide (k = k') then (k, v) :: d' else (k', v') :: dict_set k v d'
  end.


(** A dict display [{k1: v1, k2: v2, ...}] inserts its items from left to
    right. *)
Definition dict_literal {V : Type} (kvs : list (string * V)) : dict string V :=
  fold_left (fun d kv => dict_set kv.1 kv.2 d) kvs [].

Definition items {K V : Type} (d : dict K V) : list (K * V) := d.

(** ** The world the script runs in *)

(** One member of a zip archive: its name, its modification time (which
    [writestr] takes from the clock) and its bytes. *)
Record ZipInfo : Type := mkZipInfo {
  filename : string;
  date_time : nat;
  file_data : list byte
}.

(** A zip file on disk: the members written so far, and whether the central
    directory has been written (which [close] does). *)
Record Archive : Type := mkArchive {
  infolist : list ZipInfo;
  finalized : bool
}.

Record World : Type := mkWorld {
  disk : gmap string Archive;
  io_ops : nat;
  stdout : string
}.

(** The spec's error taxonomy has one class; it stands for the [OSError]
    family that Python raises. *)
Inductive ArchiveError : Type := IOFailure.

Inductive outcome (A : Type) : Type :=
  | Ok (a : A)
  | Raise (e : ArchiveError).
Arguments Ok {A} a.
Arguments Raise {A} e.

(** A Python computation: it ends normally or raises, and either way leaves
    a world behind. *)
Definition Py (A : Type) : Type := World -> outcome A * World.

Definition ret {A : Type} (a : A) : Py A := fun w => (Ok a, w).

Definition bind {A B : Type} (m : Py A) (k : A -> Py B) : Py B :=
  fun w =>
    match m w with
    | (Ok a, w') => k a w'
    | (Raise e, w') => (Raise e, w')
    end.

Declare Scope py_scope.
Delimit Scope py_scope with py.
Notation "x <- m ;; k" := (bind m (fun x => k))
  (at level 100, m at next level, right associativity) : py_scope.
Notation "m ;; k" := (bind m (fun _ => k))
  (at level 100, right associativity) : py_scope.
Open Scope py_scope.

(** [for x in l: body]. *)
Fixpoint for_ {A : Type} (l : list A) (body : A -> Py unit) : Py unit :=
  match l with
  | [] => ret tt
  | x :: l' => body x ;; for_ l' body
  end.

(** [print(s)]. *)
Definition print (s : string) : Py unit :=
  fun w => (Ok tt, mkWorld (disk w) (io_ops w) (stdout w +:+ s +:+ newline)).

Inductive Mode : Type := W.

(** An open [ZipFile] is identified by the path it writes to. *)
Definition ZipHandle : Type := string.

(** The members of an archive as (path, content) pairs, without the
    metadata. *)
Definition entries (a : Archive) : list (string * list byte) :=
  (fun zi => (filename zi, file_data zi)) <$> infolist a.

(** [ZipFile.read(name)]: the archive must have its central directory; of
    several members of one name the last one written is returned. *)
Definition zip_read (a : Archive) (name : string) : option (list byte) :=
  if finalized a
  then file_data <$> head (filter (fun zi => filename zi = name) (reverse (infolist a)))
  else None.

Section Environment.

(** What the script cannot control: which I/O operations fail, and what
    the clock shows at each of them.  Both are indexed by the number of
    I/O operations made so far. *)
Variable io_fail : nat -> bool.
Variable now : nat -> nat.

(** One I/O operation: it is counted, and it raises when the environment
    says so. *)
Definition syscall : Py unit :=
  fun w =>
    let w' := mkWorld (disk w) (S (io_ops w)) (stdout w) in
    if io_fail (io_ops w) then (Raise IOFailure, w') else (Ok tt, w').

Definition set_file (p : string) (a : Archive) : Py unit :=
  fun w => (Ok tt, mkWorld (<[p := a]> (disk w)) (io_ops w) (stdout w)).

Definition localtime : Py nat := fun w => (Ok (now (io_ops w)), w).

(** [zipfile.ZipFile(file, 'w')]: creates the file, or truncates it. *)
Definition ZipFile (file : string) (mode : Mode) : Py ZipHandle :=
  syscall ;;
  set_file file (mkArchive [] false) ;;
  ret file.

(** [zf.writestr(arcname, data)]: a [str] is encoded as UTF-8; the member
    is appended (also when its name is already there) once its bytes are
    written.  The member is stored under [arcname] as given, which is what
    [zipfile] does for the names [zip_name_ok] below describes: [ZipInfo]
    cuts a name at its first NUL character, and a name longer than 65535
    bytes does not fit the header and makes [writestr] raise.  The table of
    the script has only such names; statements about other tables assume
    [zip_safe].  A call is one I/O operation that happens or fails as a
    whole. *)
Definition writestr (zf : ZipHandle) (arcname : string) (data : string) : Py unit :=
  fun w =>
    match disk w !! zf with
    | None => (Raise IOFailure, w)
    | Some a =>
        (t <- localtime ;;
         syscall ;;
         set_file zf (mkArchive (infolist a ++ [mkZipInfo arcname t (encode_utf8 data)])
                                (finalized a))) w
    end.

(** [zf.close()]: writes the central directory.  When the operation fails
    the archive is left unfinalized here; the library flushes once more
    while it releases the file, so what a failing close leaves on disk is
    not determined by this model, and no statement below is about it. *)
Definition close (zf : ZipHandle) : Py unit :=
  fun w =>
    match disk w !! zf with
    | None => (Raise IOFailure, w)
    | Some a => (syscall ;; set_file zf (mkArchive (infolist a) true)) w
    end.

(** [with zipfile.ZipFile(file, mode) as zf: body].  [__exit__] closes the
    archive on every way out of the body and does not swallow an
    exception; an exception of [close] itself replaces the pending one. *)
Definition with_ZipFile {A : Type} (file : string) (mode : Mode)
    (body : ZipHandle -> Py A) : Py A :=
  zf <- ZipFile file mode ;;
  fun w =>
    match body zf w with
    | (Ok a, w1) =>
        match close zf w1 with
        | (Ok _, w2) => (Ok a, w2)
        | (Raise e, w2) => (Raise e, w2)
        end
    | (Raise e, w1) =>
        match close zf w1 with
        | (Ok _, w2) => (Raise e, w2)
        | (Raise e', w2) => (Raise e', w2)
        end
    end.

(** ** The script *)

(** The module body, as a function of its two module-level constants. *)
Definition script (structure : dict string (list string)) (zip_filename : string)
    : Py unit :=
  with_ZipFile zip_filename W (fun zf =>
    for_ (items structure) (fun '(tier, folders) =>
      for_ folders (fun folder =>
        let path := tier +:+ "/" +:+ folder +:+ ".txt" in
        writestr zf path "- [ ] Placeholder task"))) ;;
  print ("Created " +:+ zip_filename).

End Environment.

Definition structure : dict string (list string) :=
  dict_literal [
    ("S", [
        "Learn Earn"; "Productivity"; "Outreach Playbook"; "Motivation"; "Flow";
        "The Grand Slam Offer"; "Business Research"; "Financial Urgent"; "Work"; "Finances"
    ]);
    ("A", [
        "Next-Level Acceleration"; "Tech Projects"; "Game Development"; "Lead Generation";
        "Research"; "Relationship"; "Content Creation"
    ]);
    ("B", [
        "Website"; "Domain Acquisition"; "Podcasting"; "BrandKit"; "Productized Service";
        "Household & Maintenance"; "Funnel & Tracking"; "Health & Wellness"; "Community Building";
        "Operations"; "Personal Branding"; "Reflection"; "Personal Events"; "Product Development"
    ]);
    ("C", [
        "Fitness"; "Wellness"; "Streaming Setup"; "App Mafia"; "Lightmark.ai";
        "Social Media"; "Code"; "Luma Event"; "Dental & Medical"; "SEO";
        "Indiehacking"; "Design"; "SelfCare"; "Content Strategy"
    ]);
    ("D", [
        "Travel"; "Content Curation"; "Improv Setup"; "Townhall"
    ]);
    ("F", [
        "None"; "Shopping & Errands"; "NS Projects & Social"; "Content Consumption";
        "Leisure"; "Ns"
    ])
  ].

Definition zip_filename : string := "restored_flowlist.zip".

(** Running the script. *)
Definition main (io_fail : nat -> bool) (now : nat -> nat) : Py unit :=
  script io_fail now structure zip_filename.

(** ** What the spec says, as pure data *)

Definition placeholder : string := "- [ ] Placeholder task".

(** The path of the member for one (tier, folder) pair. *)
Definition entry_path (p : string * string) : string :=
  p.1 +:+ "/" +:+ p.2 +:+ ".txt".

(** The (tier, folder) pairs of a table: tiers in table order, folders in
    list order. *)
Definition pairs (table : dict string (list string)) : list (string * string) :=
  tf ← items table; pair tf.1 <$> tf.2.

(** The archive entries as the spec words them: for each tier of the table,
    in the table's order, for each folder of the tier's list, in list order,
    one entry at path [{tier}/{folder}.txt] holding the placeholder text. *)
Definition expected_entries (table : dict string (list string))
    : list (string * list byte) :=
  tf ← items table;
  folder ← tf.2;
  [(tf.1 +:+ "/" +:+ folder +:+ ".txt", encode_utf8 "- [ ] Placeholder task")].

(** [sum(len(folders) for folders in table.values())]. *)
Definition total_folders (table : dict string (list string)) : nat :=
  sum_list_with (fun tf => length tf.2) (items table).

(** The first of the [m] I/O operations numbered from [k] that fails, if
    one does. *)
Fixpoint first_fault (io_fail : nat -> bool) (k m : nat) : option nat :=
  match m with
  | 0 => None
  | S m' => if io_fail k then Some 0 else S <$> first_fault io_fail (S k) m'
  end.

(** The members that a loop of [writestr] calls leaves for the pairs [l],
    when its first call is I/O operation number [k]. *)
Fixpoint written (now : nat -> nat) (k : nat) (l : list (string * string))
    : list ZipInfo :=
  match l with
  | [] => []
  | p :: l' =>
      mkZipInfo (entry_path p) (now k) (encode_utf8 placeholder) :: written now (S k) l'
  end.

(** The characters of a string; a tier name must hold no slash for the
    tier to be recognisable in a path. *)
Definition chars (s : string) : list ascii := String.list_ascii_of_string s.

Definition slash_free (s : string) : Prop := "/"%char ∉ chars s.

(** The world a run without faults leaves behind. *)
Definition success_world (now : nat -> nat) (table : dict string (list string))
    (out : string) (w : World) : World :=
  mkWorld (<[out := mkArchive (written now (S (io_ops w)) (pairs table)) true]> (disk w))
          (S (S (io_ops w) + length (pairs table)))
          (stdout w +:+ ("Created " +:+ out) +:+ newline).

(** The archive at a path, when there is one. *)
Definition archive_at (w : World) (p : string) : option Archive := disk w !! p.

(** An environment in which nothing fails and the clock counts operations,
    and a world with an empty disk. *)
Definition no_faults : nat -> bool := fun _ => false.
Definition tick_clock : nat -> nat := fun n => n.
Definition fresh_world : World := mkWorld ∅ 0 "".

(** The world that run leaves. *)
Definition fresh_result : World := (main no_faults tick_clock fresh_world).2.

(** An environment in which only I/O operation [n] fails. *)
Definition fault_at (n : nat) : nat -> bool := fun k => bool_decide (k = n).

(** The world a run in environment [fault_at 3] leaves: the open and two
    writes succeed, the third write fails. *)
Definition faulty_result : World := (main (fault_at 3) tick_clock fresh_world).2.

(** Running the program a second time, on the world the first run left. *)
Definition rerun_result : World := (main no_faults tick_clock fresh_result).2.

(** The table of the spec's scenario: [{"S": ["Learn Earn", "Work"]}]. *)
Definition scenario_table : dict string (list string) :=
  dict_literal [("S", ["Learn Earn"; "Work"])].

(** A table with the edge cases the loops can meet: a tier without
    folders, a folder listed twice, and a tier name holding a slash. *)
Definition odd_table : dict string (list string) :=
  dict_literal [("X", []); ("a", ["b/c"]); ("a/b", ["c"; "c"])].

(** The member names that [zipfile] stores as they are given: no NUL
    character (a name is cut at the first one), and at most 65535 bytes once
    encoded (the length field of the header has 16 bits). *)
Definition nul : ascii := ascii_of_nat 0.

Definition zip_name_ok (name : string) : Prop :=
  (nul ∉ chars name) /\ (N.of_nat (length (encode_utf8 name)) <= 65535)%N.

(** A table all of whose paths are such names. *)
Definition zip_safe (table : dict string (list string)) : Prop :=
  Forall (fun p => zip_name_ok (entry_path p)) (pairs table).


Example run_fresh_ok : (main no_faults tick_clock fresh_world).1 = Ok tt.
Proof. vm_compute. reflexivity. Qed.

(** ** The loops *)

Section Loops.

Variable io_fail : nat -> bool.
Variable now : nat -> nat.

Lemma for_app {A : Type} (l1 l2 : list A) (body : A -> Py unit) (w : World) :
  for_ (l1 ++ l2) body w = (for_ l1 body ;; for_ l2 body) w.
Proof.
  revert w. induction l1 as [|x l1 IH]; intros w; simpl.
  - reflexivity.
  - unfold bind. destruct (body x w) as [[[]|e] w1]; [|reflexivity].
    rewrite IH. reflexivity.
Qed.

Lemma for_fmap {A B : Type} (f : A -> B) (l : list A) (body : B -> Py unit) (w : World) :
  for_ (f <$> l) body w = for_ l (fun x => body (f x)) w.
Proof.
  revert w. induction l as [|x l IH]; intros w; simpl; [reflexivity|].
  unfold bind. destruct (body (f x) w) as [[[]|e] w1]; [apply IH|reflexivity].
Qed.

(** The nested loops of the script visit the pairs of the table, in the
    order of [pairs]. *)
Lemma for_nested (table : dict string (list string))
    (body : string -> string -> Py unit) (w : World) :
  for_ (items table) (fun '(tier, folders) => for_ folders (fun folder => body tier folder)) w
  = for_ (pairs table) (fun p => body p.1 p.2) w.
Proof.
  revert w. unfold pairs, items.
  induction table as [|[tier folders] table IH]; intros w; [reflexivity|].
  rewrite bind_cons. cbn [for_]. rewrite for_app. unfold bind.
  rewrite for_fmap. cbn [fst snd].
  destruct (for_ folders _ w) as [[[]|e] w1]; [apply IH|reflexivity].
Qed.

Lemma first_fault_None (k m : nat) :
  first_fault io_fail k m = None <-> forall i, i < m -> io_fail (k + i) = false.
Proof.
  revert k. induction m as [|m IH]; intros k; simpl.
  - split; [intros _ i Hi; lia | reflexivity].
  - destruct (io_fail k) eqn:Hk.
    + split; [discriminate|]. intros H. specialize (H 0).
      rewrite Nat.add_0_r, Hk in H. discriminate H. lia.
    + rewrite fmap_None, IH. split; intros H i Hi.
      * destruct i as [|i]; [by rewrite Nat.add_0_r|].
        rewrite <- Nat.add_succ_comm. apply H. lia.
      * rewrite Nat.add_succ_comm. apply H. lia.
Qed.

Lemma first_fault_Some (k m i : nat) :
  first_fault io_fail k m = Some i ->
  i < m /\ io_fail (k + i) = true /\ forall j, j < i -> io_fail (k + j) = false.
Proof.
  revert k i. induction m as [|m IH]; intros k i; simpl; [discriminate|].
  destruct (io_fail k) eqn:Hk.
  - intros [= <-]. rewrite Nat.add_0_r. split; [lia|]. split; [done|]. intros j Hj; lia.
  - rewrite fmap_Some. intros (i' & Hi' & ->).
    destruct (IH _ _ Hi') as (Hlt & Hf & Hbefore).
    split; [lia|]. split; [by rewrite <- Nat.add_succ_comm|].
    intros [|j] Hj; [by rewrite Nat.add_0_r|].
    rewrite <- Nat.add_succ_comm. apply Hbefore. lia.
Qed.

(** The loop of [writestr] calls over a list of pairs: it appends the
    members in order and stops at the first operation that fails. *)
Lemma write_loop (zf : ZipHandle) (l : list (string * string)) (w : World) (a : Archive) :
  disk w !! zf = Some a ->
  for_ l (fun p => writestr io_fail now zf (p.1 +:+ "/" +:+ p.2 +:+ ".txt")
                     "- [ ] Placeholder task") w
  = match first_fault io_fail (io_ops w) (length l) with
    | None =>
        (Ok tt,
         mkWorld (<[zf := mkArchive (infolist a ++ written now (io_ops w) l) (finalized a)]>
                    (disk w))
                 (io_ops w + length l) (stdout w))
    | Some i =>
        (Raise IOFailure,
         mkWorld (<[zf := mkArchive (infolist a ++ written now (io_ops w) (take i l))
                                    (finalized a)]> (disk w))
                 (io_ops w + S i) (stdout w))
    end.
Proof.
  revert w a. induction l as [|p l IH]; intros [d k out] [ms fin] Hd;
    cbn [for_ length first_fault written disk io_ops stdout infolist finalized] in *.
  - unfold ret. rewrite app_nil_r, Nat.add_0_r, insert_id by done. reflexivity.
  - unfold bind at 1. unfold writestr at 1. cbn [disk]. rewrite Hd.
    unfold bind, localtime, syscall, set_file.
    cbn [disk io_ops stdout infolist finalized].
    destruct (io_fail k) eqn:Hk; cbn [take written].
    + rewrite app_nil_r, Nat.add_1_r, insert_id by done. reflexivity.
    + erewrite IH by (cbn [disk]; apply lookup_insert_eq).
      cbn [disk io_ops stdout infolist finalized].
      destruct (first_fault io_fail (S k) (length l)) as [i|];
        cbn [fmap option_fmap option_map take written length];
        rewrite insert_insert_eq, <- app_assoc.
      * replace (k + S (S i)) with (S k + S i) by lia. reflexivity.
      * replace (k + S (length l)) with (S k + length l) by lia. reflexivity.
Qed.

(** What a run of the script does, for every environment and every world
    it starts in: the open is operation [k], the writes are operations
    [k+1 .. k+n], the close follows the last write made. *)
Lemma script_run (table : dict string (list string)) (out : string) (w : World) :
  script io_fail now table out w
  = let k := io_ops w in
    let ps := pairs table in
    if io_fail k then (Raise IOFailure, mkWorld (disk w) (S k) (stdout w))
    else
      match first_fault io_fail (S k) (length ps) with
      | Some i =>
          (Raise IOFailure,
           mkWorld (<[out := mkArchive (written now (S k) (take i ps))
                                       (negb (io_fail (S k + S i)))]> (disk w))
                   (S (S k + S i)) (stdout w))
      | None =>
          if io_fail (S k + length ps)
          then (Raise IOFailure,
                mkWorld (<[out := mkArchive (written now (S k) ps) false]> (disk w))
                        (S (S k + length ps)) (stdout w))
          else (Ok tt,
                mkWorld (<[out := mkArchive (written now (S k) ps) true]> (disk w))
                        (S (S k + length ps))
                        (stdout w +:+ ("Created " +:+ out) +:+ newline))
      end.
Proof.
  destruct w as [d k so]. unfold script, with_ZipFile, ZipFile. cbn zeta.
  unfold bind at 1 2 3. unfold syscall at 1. cbn [disk io_ops stdout].
  destruct (io_fail k) eqn:Hk; [reflexivity|].
  unfold bind at 1. unfold set_file at 1, ret at 1. cbn [disk io_ops stdout].
  rewrite for_nested with (body := fun tier folder =>
    writestr io_fail now out (tier +:+ "/" +:+ folder +:+ ".txt") "- [ ] Placeholder task").
  erewrite write_loop by (cbn [disk]; apply lookup_insert_eq).
  cbn [disk io_ops stdout infolist finalized app].
  destruct (first_fault io_fail (S k) (length (pairs table))) as [i|].
  - unfold close. cbn [disk]. rewrite lookup_insert_eq.
    unfold bind, syscall, set_file. cbn [disk io_ops stdout infolist finalized].
    destruct (io_fail (S k + S i)); cbn [negb disk io_ops stdout];
      rewrite ?insert_insert_eq; reflexivity.
  - unfold close. cbn [disk]. rewrite lookup_insert_eq.
    unfold bind, syscall, set_file. cbn [disk io_ops stdout infolist finalized].
    destruct (io_fail (S k + length (pairs table))); cbn [disk io_ops stdout];
      rewrite ?insert_insert_eq; reflexivity.
Qed.

End Loops.

(** ** Strings as lists of characters *)

Lemma chars_app (s1 s2 : string) :
  chars (s1 +:+ s2) = chars s1 ++ chars s2.
Proof.
  induction s1 as [|c s1 IH]; [reflexivity|].
  change (c :: chars (s1 +:+ s2) = c :: (chars s1 ++ chars s2)). by rewrite IH.
Qed.

Lemma chars_inj (s1 s2 : string) :
  chars s1 = chars s2 -> s1 = s2.
Proof.
  unfold chars. intros H. rewrite <- (String.string_of_list_ascii_of_string s1), H.
  apply String.string_of_list_ascii_of_string.
Qed.

Lemma chars_entry_path (p : string * string) :
  chars (entry_path p)
  = chars p.1 ++ "/"%char :: chars (p.2 +:+ ".txt").
Proof. unfold entry_path. rewrite !chars_app. reflexivity. Qed.

(** A list is cut at the first occurrence of a character in one way only. *)
Lemma split_first {A : Type} (c : A) (l1 l2 r1 r2 : list A) :
  c ∉ l1 -> c ∉ l2 -> l1 ++ c :: r1 = l2 ++ c :: r2 -> l1 = l2 /\ r1 = r2.
Proof.
  revert l2. induction l1 as [|x l1 IH]; intros [|y l2] H1 H2 Heq.
  - by injection Heq as ->.
  - injection Heq as <- _. by apply not_elem_of_cons in H2 as [? _].
  - injection Heq as -> _. by apply not_elem_of_cons in H1 as [? _].
  - injection Heq as -> Heq.
    apply not_elem_of_cons in H1 as [_ H1]. apply not_elem_of_cons in H2 as [_ H2].
    by destruct (IH l2 H1 H2 Heq) as [-> ->].
Qed.


(** Two pairs whose tiers hold no slash have different paths. *)
Lemma entry_path_inj (p q : string * string) :
  slash_free p.1 -> slash_free q.1 -> entry_path p = entry_path q -> p = q.
Proof.
  intros Hp Hq Heq. apply (f_equal chars) in Heq.
  rewrite !chars_entry_path in Heq.
  destruct (split_first _ _ _ _ _ Hp Hq Heq) as [Ht Hf].
  rewrite !chars_app in Hf. apply app_inv_tail in Hf.
  destruct p, q; simpl in *. f_equal; by apply chars_inj.
Qed.

(** ** UTF-8 *)

Lemma decode_encode_char (c : ascii) (rest : list byte) :
  decode_utf8 (encode_char c ++ rest) = String c <$> decode_utf8 rest.
Proof. destruct c as [[] [] [] [] [] [] [] []]; reflexivity. Qed.

(** Decoding inverts encoding. *)
Lemma decode_encode_utf8 (s : string) : decode_utf8 (encode_utf8 s) = Some s.
Proof.
  induction s as [|c s IH]; [reflexivity|].
  cbn [encode_utf8]. rewrite decode_encode_char, IH. reflexivity.
Qed.

(** ** Dicts *)

Lemma dict_set_keys {V : Type} (k : string) (v : V) (d : dict string V) :
  (dict_set k v d).*1 = if decide (k ∈ d.*1) then d.*1 else d.*1 ++ [k].
Proof.
  induction d as [|[k' v'] d IH]; [reflexivity|]. cbn [dict_set fmap list_fmap fst].
  destruct (decide (k = k')) as [->|Hne].
  - rewrite decide_True by (apply elem_of_cons; by left). reflexivity.
  - cbn [fmap list_fmap fst]. fold (fmap (M := list) (@fst string V)). rewrite IH.
    destruct (decide (k ∈ d.*1)) as [Hin|Hnin].
    + rewrite decide_True by (apply elem_of_cons; by right). reflexivity.
    + rewrite decide_False; [reflexivity|].
      intros [?|?]%elem_of_cons; contradiction.
Qed.

Lemma dict_set_NoDup {V : Type} (k : string) (v : V) (d : dict string V) :
  NoDup d.*1 -> NoDup (dict_set k v d).*1.
Proof.
  intros Hd. rewrite dict_set_keys. destruct (decide (k ∈ d.*1)); [done|].
  apply NoDup_app. split; [done|]. split; [|apply NoDup_singleton].
  intros x Hx ->%list_elem_of_singleton. contradiction.
Qed.

(** The keys of a dict are distinct, whatever the display it was made from. *)
Lemma dict_literal_NoDup {V : Type} (kvs : list (string * V)) :
  NoDup (dict_literal kvs).*1.
Proof.
  unfold dict_literal.
  assert (forall d : dict string V, NoDup d.*1 ->
            NoDup (fold_left (fun d kv => dict_set kv.1 kv.2 d) kvs d).*1) as H.
  { induction kvs as [|kv kvs IH]; intros d Hd; [done|].
    cbn [fold_left]. apply IH, dict_set_NoDup, Hd. }
  apply H. constructor.
Qed.



(** ** The pairs of a table and the members written for them *)

Lemma elem_of_pairs (table : dict string (list string)) (tier folder : string) :
  (tier, folder) ∈ pairs table <-> exists folders, (tier, folders) ∈ table /\ folder ∈ folders.
Proof.
  unfold pairs, items. rewrite list_elem_of_bind. split.
  - intros ([t fs] & Hin & Ht). apply list_elem_of_fmap in Hin as (f & [= -> ->] & Hf).
    by exists fs.
  - intros (fs & Ht & Hf). exists (tier, fs). split; [|done].
    apply list_elem_of_fmap. by exists folder.
Qed.

Lemma length_pairs (table : dict string (list string)) :
  length (pairs table) = total_folders table.
Proof.
  unfold pairs, total_folders, items. induction table as [|[t fs] table IH]; [reflexivity|].
  rewrite bind_cons, length_app, length_fmap, IH. reflexivity.
Qed.

Lemma length_written (now : nat -> nat) (k : nat) (l : list (string * string)) :
  length (written now k l) = length l.
Proof. revert k. induction l as [|p l IH]; intros k; simpl; [done|]. by rewrite IH. Qed.

Lemma written_entries (now : nat -> nat) (k : nat) (l : list (string * string)) :
  (fun zi => (filename zi, file_data zi)) <$> written now k l
  = (fun p => (entry_path p, encode_utf8 placeholder)) <$> l.
Proof.
  revert k. induction l as [|p l IH]; intros k; [reflexivity|].
  cbn [written fmap list_fmap filename file_data]. f_equal. apply IH.
Qed.

Lemma written_filenames (now : nat -> nat) (k : nat) (l : list (string * string)) :
  filename <$> written now k l = entry_path <$> l.
Proof.
  revert k. induction l as [|p l IH]; intros k; [reflexivity|].
  cbn [written fmap list_fmap filename]. f_equal. apply IH.
Qed.

(** The [i]-th member is the one of the [i]-th pair, written at operation
    [k + i]. *)
Lemma written_lookup (now : nat -> nat) (k i : nat) (l : list (string * string)) :
  written now k l !! i
  = (fun p => mkZipInfo (entry_path p) (now (k + i)) (encode_utf8 placeholder)) <$> l !! i.
Proof.
  revert k i. induction l as [|p l IH]; intros k [|i]; [done..| |].
  - cbn. by rewrite Nat.add_0_r.
  - cbn [written]. rewrite !lookup_cons. rewrite IH, Nat.add_succ_comm. reflexivity.
Qed.

Lemma elem_of_written (now : nat -> nat) (k : nat) (l : list (string * string)) (zi : ZipInfo) :
  zi ∈ written now k l ->
  exists p, p ∈ l /\ filename zi = entry_path p /\ file_data zi = encode_utf8 placeholder.
Proof.
  intros (i & Hi)%list_elem_of_lookup. rewrite written_lookup in Hi.
  apply fmap_Some in Hi as (p & Hp & ->). exists p. split; [|done].
  apply list_elem_of_lookup. by exists i.
Qed.

(** ** Runs of the script *)

Section Runs.

Variable io_fail : nat -> bool.
Variable now : nat -> nat.
Variable table : dict string (list string).
Variable out : string.

(** The script makes [length (pairs table) + 2] I/O operations: the open,
    one write per pair, the close.  A run ends normally exactly when none
    of them fails; otherwise it raises and leaves standard output alone. *)
Lemma script_cases (w w' : World) (r : outcome unit) :
  script io_fail now table out w = (r, w') ->
  match r with
  | Ok _ =>
      (forall i, i < length (pairs table) + 2 -> io_fail (io_ops w + i) = false)
      /\ w' = success_world now table out w
  | Raise e =>
      e = IOFailure /\ stdout w' = stdout w
      /\ exists i, i < length (pairs table) + 2 /\ io_fail (io_ops w + i) = true
  end.
Proof.
  rewrite script_run. cbn zeta.
  destruct (io_fail (io_ops w)) eqn:Hopen.
  { intros [= <- <-]. split; [done|]. split; [done|].
    exists 0. split; [lia|]. by rewrite Nat.add_0_r. }
  destruct (first_fault io_fail (S (io_ops w)) (length (pairs table))) as [i|] eqn:Hff.
  { intros [= <- <-]. split; [done|]. split; [done|].
    apply first_fault_Some in Hff as (Hi & Hfail & _).
    exists (S i). split; [lia|]. by rewrite <- Nat.add_succ_comm. }
  destruct (io_fail (S (io_ops w) + length (pairs table))) eqn:Hclose.
  { intros [= <- <-]. split; [done|]. split; [done|].
    exists (S (length (pairs table))). split; [lia|]. by rewrite <- Nat.add_succ_comm. }
  intros [= <- <-]. split; [|reflexivity].
  intros i Hi. destruct i as [|i]; [by rewrite Nat.add_0_r|].
  rewrite <- Nat.add_succ_comm.
  destruct (decide (i = length (pairs table))) as [->|Hne]; [done|].
  eapply first_fault_None; [exact Hff|lia].
Qed.

(** Without faults the script runs to its end. *)
Lemma script_total (w : World) :
  (forall i, i < length (pairs table) + 2 -> io_fail (io_ops w + i) = false) ->
  script io_fail now table out w = (Ok tt, success_world now table out w).
Proof.
  intros Hok. destruct (script io_fail now table out w) as [[[]|e] w'] eqn:Hrun.
  - apply script_cases in Hrun as [_ ->]. reflexivity.
  - apply script_cases in Hrun as (_ & _ & i & Hi & Hfail).
    rewrite Hok in Hfail by done. discriminate.
Qed.

(** A fault in any of the operations makes the script raise. *)
Lemma script_raises (w : World) (i : nat) :
  i < length (pairs table) + 2 -> io_fail (io_ops w + i) = true ->
  exists w', script io_fail now table out w = (Raise IOFailure, w')
             /\ stdout w' = stdout w.
Proof.
  intros Hi Hfail. destruct (script io_fail now table out w) as [[[]|e] w'] eqn:Hrun.
  - apply script_cases in Hrun as [Hok _]. rewrite Hok in Hfail by done. discriminate.
  - apply script_cases in Hrun as (-> & Hout & _). by exists w'.
Qed.

(** No other file is touched, however the run ends. *)
Lemma script_frame (w w' : World) (r : outcome unit) (p : string) :
  script io_fail now table out w = (r, w') -> p ≠ out -> disk w' !! p = disk w !! p.
Proof.
  rewrite script_run. cbn zeta. intros Hrun Hp.
  destruct (io_fail (io_ops w)); [by injection Hrun as <- <-|].
  destruct (first_fault io_fail _ _);
    [|destruct (io_fail (S (io_ops w) + _))];
    injection Hrun as <- <-; cbn [disk]; by rewrite lookup_insert_ne.
Qed.

(** The archive of a normal run. *)
Lemma script_archive (w w' : World) :
  script io_fail now table out w = (Ok tt, w') ->
  archive_at w' out = Some (mkArchive (written now (S (io_ops w)) (pairs table)) true).
Proof.
  intros Hrun. apply script_cases in Hrun as [_ ->].
  unfold archive_at, success_world. cbn [disk]. apply lookup_insert_eq.
Qed.

End Runs.

(** ** The table *)

Lemma expected_entries_pairs (table : dict string (list string)) :
  expected_entries table = (fun p => (entry_path p, encode_utf8 placeholder)) <$> pairs table.
Proof.
  unfold expected_entries, pairs, items.
  induction table as [|[tier folders] table IH]; [reflexivity|].
  rewrite !bind_cons, fmap_app, <- IH. f_equal. cbn [fst snd].
  clear IH. induction folders as [|folder folders IH]; [reflexivity|].
  rewrite bind_cons, IH. reflexivity.
Qed.

(** A table with distinct tiers and no folder twice in a tier has distinct
    pairs. *)
Lemma pairs_NoDup (table : dict string (list string)) :
  NoDup table.*1 -> Forall (fun tf => NoDup tf.2) table -> NoDup (pairs table).
Proof.
  unfold pairs, items. induction table as [|[tier folders] table IH]; intros Hk Hf.
  - constructor.
  - rewrite bind_cons. cbn [fst snd]. rewrite fmap_cons in Hk.
    apply NoDup_cons in Hk as [Htier Hk]. apply Forall_cons in Hf as [Hfolders Hf].
    apply NoDup_app. split; [|split].
    + apply NoDup_fmap_2; [|exact Hfolders]. by intros f1 f2 [= ->].
    + intros [t f] (f' & [= -> ->] & _)%list_elem_of_fmap Hin.
      apply elem_of_pairs in Hin as (fs & Hin & _). apply Htier.
      apply list_elem_of_fmap. by exists (tier, fs).
    + by apply IH.
Qed.

(** If moreover no tier name holds a slash, the paths are distinct. *)
Lemma paths_NoDup (table : dict string (list string)) :
  Forall (fun tf => slash_free tf.1) table ->
  NoDup (pairs table) -> NoDup (entry_path <$> pairs table).
Proof.
  intros Hs Hp. apply NoDup_fmap_2_strong; [|exact Hp].
  assert (forall p, p ∈ pairs table -> slash_free p.1) as Hfree.
  { intros [t f] (fs & Hin & _)%elem_of_pairs.
    rewrite Forall_forall in Hs. apply (Hs _ Hin). }
  intros p q Hp' Hq' Heq. apply entry_path_inj; auto.
Qed.

Lemma NoDup_fmap_eq {A B : Type} (f : A -> B) (l : list A) (x y : A) :
  NoDup (f <$> l) -> x ∈ l -> y ∈ l -> f x = f y -> x = y.
Proof.
  intros Hnd (i & Hi)%list_elem_of_lookup (j & Hj)%list_elem_of_lookup Heq.
  assert (i = j) as ->.
  { apply (NoDup_lookup (f <$> l) i j (f x)); [done|..].
    - by rewrite list_lookup_fmap, Hi.
    - by rewrite list_lookup_fmap, Hj, Heq. }
  congruence.
Qed.

Lemma structure_items :
  (fun tf => (tf.1, length tf.2)) <$> items structure
  = [("S", 10); ("A", 7); ("B", 14); ("C", 14); ("D", 4); ("F", 6)].
Proof. reflexivity. Qed.

Lemma structure_keys_NoDup : NoDup structure.*1.
Proof. apply dict_literal_NoDup. Qed.

Lemma structure_folders_NoDup : Forall (fun tf => NoDup tf.2) structure.
Proof. compute_done. Qed.

Lemma structure_slash_free : Forall (fun tf => slash_free tf.1) structure.
Proof. unfold slash_free. compute_done. Qed.

Lemma structure_paths_NoDup : NoDup (entry_path <$> pairs structure).
Proof.
  apply paths_NoDup, pairs_NoDup;
    auto using structure_slash_free, structure_keys_NoDup, structure_folders_NoDup.
Qed.

Lemma structure_total : total_folders structure = 55.
Proof. reflexivity. Qed.

(** ** The archive of a successful run *)

Lemma main_archive (io_fail : nat -> bool) (now : nat -> nat) (w w' : World) :
  main io_fail now w = (Ok tt, w') ->
  archive_at w' zip_filename
  = Some (mkArchive (written now (S (io_ops w)) (pairs structure)) true).
Proof. apply script_archive. Qed.

(** Without faults the program succeeds: the theorems below that assume a
    successful run are about runs that exist. *)
Lemma main_total (io_fail : nat -> bool) (now : nat -> nat) (w : World) :
  (forall i, i < 57 -> io_fail (io_ops w + i) = false) ->
  exists w', main io_fail now w = (Ok tt, w').
Proof.
  intros Hok. eexists. apply script_total. rewrite length_pairs, structure_total. exact Hok.
Qed.

(** The program succeeds exactly when none of its 57 I/O operations fails,
    and then leaves [success_world]. *)
Lemma main_ok_iff (io_fail : nat -> bool) (now : nat -> nat) (w w' : World) :
  main io_fail now w = (Ok tt, w')
  <-> (forall i, i < 57 -> io_fail (io_ops w + i) = false)
      /\ w' = success_world now structure zip_filename w.
Proof.
  split.
  - intros Hrun. apply script_cases in Hrun.
    by rewrite length_pairs, structure_total in Hrun.
  - intros [Hok ->]. apply script_total. by rewrite length_pairs, structure_total.
Qed.

(** C1, as amended: after every successful run the archive has exactly
    10 + 7 + 14 + 14 + 4 + 6 = 55 entries, the sum over all tiers of the
    length of the tier's folder list. *)
Theorem archive_entry_count (io_fail : nat -> bool) (now : nat -> nat) (w w' : World) :
  main io_fail now w = (Ok tt, w') ->
  exists a, archive_at w' zip_filename = Some a
    /\ finalized a = true
    /\ length (entries a) = 10 + 7 + 14 + 14 + 4 + 6
    /\ length (entries a) = 55
    /\ length (entries a) = total_folders structure.
Proof.
  intros Hrun. eexists. split; [exact (main_archive _ _ _ _ Hrun)|].
  unfold entries. cbn [infolist finalized].
  rewrite length_fmap, length_written, length_pairs, structure_total. done.
Qed.

Lemma archive_entry_count_witness :
  main no_faults tick_clock fresh_world = (Ok tt, fresh_result)
  /\ exists a, archive_at fresh_result zip_filename = Some a
    /\ finalized a = true
    /\ length (entries a) = 10 + 7 + 14 + 14 + 4 + 6
    /\ length (entries a) = 55
    /\ length (entries a) = total_folders structure.
Proof.
  assert (main no_faults tick_clock fresh_world = (Ok tt, fresh_result)) as Hrun
    by (vm_compute; reflexivity).
  split; [exact Hrun|].
  exact (archive_entry_count no_faults tick_clock fresh_world fresh_result Hrun).
Defined.

(** C1 as the spec states it (51 entries) fails: the run on an empty disk
    without faults succeeds, and its archive does not have
    6 + 7 + 14 + 14 + 4 + 6 entries. *)
Lemma archive_entry_count_not_51 :
  ~ (forall (io_fail : nat -> bool) (now : nat -> nat) (w w' : World) (a : Archive),
       main io_fail now w = (Ok tt, w') ->
       archive_at w' zip_filename = Some a ->
       length (entries a) = 6 + 7 + 14 + 14 + 4 + 6).
Proof.
  intros Hclaim.
  assert (main no_faults tick_clock fresh_world = (Ok tt, fresh_result)) as Hrun
    by (vm_compute; reflexivity).
  pose proof (main_archive _ _ _ _ Hrun) as Ha.
  specialize (Hclaim _ _ _ _ _ Hrun Ha). vm_compute in Hclaim. discriminate Hclaim.
Qed.

(** C10: the table has 10, 7, 14, 14, 4 and 6 folders in tiers S, A, B, C,
    D and F, so it has 55 (tier, folder) pairs, and the archive of a
    successful run has 55 entries. *)
Theorem tier_folder_counts (io_fail : nat -> bool) (now : nat -> nat) (w w' : World) :
  main io_fail now w = (Ok tt, w') ->
  (fun tf => (tf.1, length tf.2)) <$> items structure
    = [("S", 10); ("A", 7); ("B", 14); ("C", 14); ("D", 4); ("F", 6)]
  /\ length (pairs structure) = 55
  /\ exists a, archive_at w' zip_filename = Some a /\ length (entries a) = 55.
Proof.
  intros Hrun. split; [exact structure_items|].
  split; [by rewrite length_pairs|].
  eexists. split; [exact (main_archive _ _ _ _ Hrun)|].
  unfold entries. cbn [infolist].
  by rewrite length_fmap, length_written, length_pairs.
Qed.

Lemma tier_folder_counts_witness :
  main no_faults tick_clock fresh_world = (Ok tt, fresh_result)
  /\ (fun tf => (tf.1, length tf.2)) <$> items structure
      = [("S", 10); ("A", 7); ("B", 14); ("C", 14); ("D", 4); ("F", 6)]
  /\ length (pairs structure) = 55
  /\ exists a, archive_at fresh_result zip_filename = Some a /\ length (entries a) = 55.
Proof.
  assert (main no_faults tick_clock fresh_world = (Ok tt, fresh_result)) as Hrun
    by (vm_compute; reflexivity).
  split; [exact Hrun|].
  exact (tier_folder_counts no_faults tick_clock fresh_world fresh_result Hrun).
Defined.

(** C4: the members of the archive are, in this order, the flattening of
    the table: tiers in the table's order, folders in list order, one entry
    [{tier}/{folder}.txt] each and nothing else; the [i]-th member is the
    [i]-th write the run makes (the open is its first I/O operation). *)
Theorem entries_in_table_order (io_fail : nat -> bool) (now : nat -> nat) (w w' : World) :
  main io_fail now w = (Ok tt, w') ->
  exists a, archive_at w' zip_filename = Some a
    /\ entries a = expected_entries structure
    /\ forall i zi, infolist a !! i = Some zi -> date_time zi = now (io_ops w + 1 + i).
Proof.
  intros Hrun. eexists. split; [exact (main_archive _ _ _ _ Hrun)|].
  unfold entries. cbn [infolist]. split.
  - rewrite written_entries. symmetry. apply expected_entries_pairs.
  - intros i zi Hi. rewrite written_lookup in Hi.
    apply fmap_Some in Hi as (p & _ & ->). cbn [date_time]. f_equal. lia.
Qed.

Lemma entries_in_table_order_witness :
  main no_faults tick_clock fresh_world = (Ok tt, fresh_result)
  /\ exists a, archive_at fresh_result zip_filename = Some a
    /\ entries a = expected_entries structure
    /\ forall i zi, infolist a !! i = Some zi ->
         date_time zi = tick_clock (io_ops fresh_world + 1 + i).
Proof.
  assert (main no_faults tick_clock fresh_world = (Ok tt, fresh_result)) as Hrun
    by (vm_compute; reflexivity).
  split; [exact Hrun|].
  exact (entries_in_table_order no_faults tick_clock fresh_world fresh_result Hrun).
Defined.

(** The order is the one of the source text: tier S first, its folders as
    listed, then tier A. *)
Example expected_entries_order :
  (fun i => fst <$> expected_entries structure !! i) <$> [0; 1; 9; 10; 54]
  = [Some "S/Learn Earn.txt"; Some "S/Productivity.txt"; Some "S/Finances.txt";
     Some "A/Next-Level Acceleration.txt"; Some "F/Ns.txt"].
Proof. reflexivity. Qed.

(** C5: the paths of the table's pairs are pairwise different, and no
    tier's list holds a folder name twice. *)
Theorem entry_paths_unique :
  (forall p q, p ∈ pairs structure -> q ∈ pairs structure -> p ≠ q ->
     p.1 +:+ "/" +:+ p.2 +:+ ".txt" ≠ q.1 +:+ "/" +:+ q.2 +:+ ".txt")
  /\ NoDup (entry_path <$> pairs structure)
  /\ (forall tier folders, (tier, folders) ∈ items structure -> NoDup folders).
Proof.
  split; [|split].
  - intros p q Hp Hq Hne Heq. apply Hne.
    exact (NoDup_fmap_eq entry_path _ p q structure_paths_NoDup Hp Hq Heq).
  - exact structure_paths_NoDup.
  - intros tier folders Hin.
    pose proof structure_folders_NoDup as H. rewrite Forall_forall in H.
    exact (H _ Hin).
Qed.

Lemma entry_paths_unique_witness :
  ("S", "Work") ∈ pairs structure /\ ("A", "Research") ∈ pairs structure
  /\ ("S", "Work") ≠ ("A", "Research")
  /\ "S/Work.txt" ≠ "A/Research.txt"
  /\ ("D", ["Travel"; "Content Curation"; "Improv Setup"; "Townhall"]) ∈ items structure
  /\ NoDup ["Travel"; "Content Curation"; "Improv Setup"; "Townhall"].
Proof.
  destruct entry_paths_unique as (Hinj & _ & Hfolders).
  assert (("S", "Work") ∈ pairs structure) as H1 by compute_done.
  assert (("A", "Research") ∈ pairs structure) as H2 by compute_done.
  assert (("S", "Work") ≠ ("A", "Research")) as H3 by discriminate.
  assert (("D", ["Travel"; "Content Curation"; "Improv Setup"; "Townhall"])
            ∈ items structure) as H4 by compute_done.
  split; [exact H1|]. split; [exact H2|]. split; [exact H3|].
  split; [exact (Hinj _ _ H1 H2 H3)|]. split; [exact H4|].
  exact (Hfolders _ _ H4).
Defined.

(** C2: the members of the archive and the (tier, folder) pairs of the
    table correspond one to one through [tier/folder.txt]: every member's
    path comes from a pair of the table, every pair has exactly one member,
    no path occurs twice, and there are as many members as pairs. *)
Theorem entries_bijection (io_fail : nat -> bool) (now : nat -> nat) (w w' : World) :
  main io_fail now w = (Ok tt, w') ->
  exists a, archive_at w' zip_filename = Some a
    /\ (forall zi, zi ∈ infolist a ->
          exists tier folder, (tier, folder) ∈ pairs structure
            /\ filename zi = tier +:+ "/" +:+ folder +:+ ".txt")
    /\ (forall tier folder, (tier, folder) ∈ pairs structure ->
          exists zi, zi ∈ infolist a
            /\ filename zi = tier +:+ "/" +:+ folder +:+ ".txt"
            /\ forall zi', zi' ∈ infolist a -> filename zi' = filename zi -> zi' = zi)
    /\ NoDup (filename <$> infolist a)
    /\ NoDup (pairs structure)
    /\ length (infolist a) = length (pairs structure).
Proof.
  intros Hrun. eexists. split; [exact (main_archive _ _ _ _ Hrun)|].
  cbn [infolist].
  assert (NoDup (filename <$> written now (S (io_ops w)) (pairs structure))) as Hnd.
  { rewrite written_filenames. exact structure_paths_NoDup. }
  split; [|split; [|split; [|split]]].
  - intros zi ([tier folder] & Hp & Hname & _)%elem_of_written. by exists tier, folder.
  - intros tier folder (i & Hi)%list_elem_of_lookup.
    eexists. split; [|split].
    + apply list_elem_of_lookup. exists i. rewrite written_lookup, Hi. reflexivity.
    + reflexivity.
    + intros zi' Hzi' Hname. refine (NoDup_fmap_eq filename _ _ _ Hnd Hzi' _ Hname).
      apply list_elem_of_lookup. exists i. rewrite written_lookup, Hi. reflexivity.
  - exact Hnd.
  - apply pairs_NoDup; [exact structure_keys_NoDup|exact structure_folders_NoDup].
  - apply length_written.
Qed.

Lemma entries_bijection_witness :
  main no_faults tick_clock fresh_world = (Ok tt, fresh_result)
  /\ exists a, archive_at fresh_result zip_filename = Some a
    /\ (forall zi, zi ∈ infolist a ->
          exists tier folder, (tier, folder) ∈ pairs structure
            /\ filename zi = tier +:+ "/" +:+ folder +:+ ".txt")
    /\ (forall tier folder, (tier, folder) ∈ pairs structure ->
          exists zi, zi ∈ infolist a
            /\ filename zi = tier +:+ "/" +:+ folder +:+ ".txt"
            /\ forall zi', zi' ∈ infolist a -> filename zi' = filename zi -> zi' = zi)
    /\ NoDup (filename <$> infolist a)
    /\ NoDup (pairs structure)
    /\ length (infolist a) = length (pairs structure).
Proof.
  assert (main no_faults tick_clock fresh_world = (Ok tt, fresh_result)) as Hrun
    by (vm_compute; reflexivity).
  split; [exact Hrun|].
  exact (entries_bijection no_faults tick_clock fresh_world fresh_result Hrun).
Defined.

(** C3: every member of the archive holds exactly the bytes of the ASCII
    text [- [ ] Placeholder task], 22 bytes that do not end in a line feed,
    and reading a member back and decoding it gives that text. *)
Theorem entry_content_roundtrip (io_fail : nat -> bool) (now : nat -> nat) (w w' : World) :
  main io_fail now w = (Ok tt, w') ->
  exists a, archive_at w' zip_filename = Some a
    /\ forall zi, zi ∈ infolist a ->
         file_data zi = encode_utf8 "- [ ] Placeholder task"
         /\ zip_read a (filename zi) ≫= decode_utf8 = Some "- [ ] Placeholder task"
         /\ length (file_data zi) = 22
         /\ last (file_data zi) ≠ Some x0a.
Proof.
  intros Hrun. eexists. split; [exact (main_archive _ _ _ _ Hrun)|].
  cbn [infolist]. intros zi Hzi.
  assert (forall z, z ∈ written now (S (io_ops w)) (pairs structure) ->
            file_data z = encode_utf8 placeholder) as Hdata.
  { intros z (p & _ & _ & Hz)%elem_of_written. exact Hz. }
  split; [exact (Hdata _ Hzi)|]. split; [|rewrite (Hdata _ Hzi); split; [reflexivity|discriminate]].
  unfold zip_read. cbn [finalized infolist].
  destruct (filter (fun z => filename z = filename zi)
              (reverse (written now (S (io_ops w)) (pairs structure)))) as [|z l] eqn:Hfilter.
  - exfalso. apply (elem_of_nil zi). rewrite <- Hfilter.
    apply list_elem_of_filter. split; [reflexivity|]. by apply elem_of_reverse.
  - assert (z ∈ written now (S (io_ops w)) (pairs structure)) as Hz.
    { apply elem_of_reverse. eapply (proj1 (list_elem_of_filter _ _ _)).
      rewrite Hfilter. apply elem_of_cons. by left. }
    cbn [head fmap option_fmap option_map mbind option_bind].
    rewrite (Hdata _ Hz). apply decode_encode_utf8.
Qed.

Lemma entry_content_roundtrip_witness :
  main no_faults tick_clock fresh_world = (Ok tt, fresh_result)
  /\ exists a, archive_at fresh_result zip_filename = Some a
    /\ forall zi, zi ∈ infolist a ->
         file_data zi = encode_utf8 "- [ ] Placeholder task"
         /\ zip_read a (filename zi) ≫= decode_utf8 = Some "- [ ] Placeholder task"
         /\ length (file_data zi) = 22
         /\ last (file_data zi) ≠ Some x0a.
Proof.
  assert (main no_faults tick_clock fresh_world = (Ok tt, fresh_result)) as Hrun
    by (vm_compute; reflexivity).
  split; [exact Hrun|].
  exact (entry_content_roundtrip no_faults tick_clock fresh_world fresh_result Hrun).
Defined.

(** ** The scenario for tier S *)





(** The scenario's own table, with two folders in tier S. *)
Example scenario_table_entries :
  (entries <$> archive_at (script no_faults tick_clock scenario_table "out.zip" fresh_world).2
                 "out.zip")
  = Some [("S/Learn Earn.txt", encode_utf8 "- [ ] Placeholder task");
          ("S/Work.txt", encode_utf8 "- [ ] Placeholder task")].
Proof. vm_compute. reflexivity. Qed.

(** ** Re-running, failing, reporting *)

(** C7: two successful runs, in whatever environments and from whatever
    worlds (in particular a second run on the world the first one left, which
    overwrites the same path), leave archives with the same sequence of
    (path, content) pairs; only the members' timestamps may differ. *)
Theorem rerun_same_entries (io_fail1 io_fail2 : nat -> bool) (now1 now2 : nat -> nat)
    (w1 w1' w2 w2' : World) :
  main io_fail1 now1 w1 = (Ok tt, w1') ->
  main io_fail2 now2 w2 = (Ok tt, w2') ->
  exists a1 a2, archive_at w1' zip_filename = Some a1
    /\ archive_at w2' zip_filename = Some a2
    /\ entries a1 = entries a2.
Proof.
  intros Hrun1 Hrun2. eexists _, _.
  split; [exact (main_archive _ _ _ _ Hrun1)|].
  split; [exact (main_archive _ _ _ _ Hrun2)|].
  unfold entries. cbn [infolist]. by rewrite !written_entries.
Qed.

Lemma rerun_same_entries_witness :
  main no_faults tick_clock fresh_world = (Ok tt, fresh_result)
  /\ main no_faults tick_clock fresh_result = (Ok tt, rerun_result)
  /\ exists a1 a2, archive_at fresh_result zip_filename = Some a1
    /\ archive_at rerun_result zip_filename = Some a2
    /\ entries a1 = entries a2.
Proof.
  assert (main no_faults tick_clock fresh_world = (Ok tt, fresh_result)) as Hrun1
    by (vm_compute; reflexivity).
  assert (main no_faults tick_clock fresh_result = (Ok tt, rerun_result)) as Hrun2
    by (vm_compute; reflexivity).
  split; [exact Hrun1|]. split; [exact Hrun2|].
  exact (rerun_same_entries no_faults no_faults tick_clock tick_clock
           fresh_world fresh_result fresh_result rerun_result Hrun1 Hrun2).
Defined.

(** The metadata does differ: the second run stamps its members later. *)
Example rerun_timestamps_differ :
  (date_time <$> (archive_at fresh_result zip_filename ≫= fun a => head (infolist a)),
   date_time <$> (archive_at rerun_result zip_filename ≫= fun a => head (infolist a)))
  = (Some 1, Some 58).
Proof. vm_compute. reflexivity. Qed.

(** C8: the run makes 57 I/O operations (the open, 55 writes, the close).
    If the open or any write fails (or the close), the run raises
    [IOFailure] and prints nothing; and whenever the run has printed, it
    ended normally, the archive is finalized, and what it printed is the
    one success line. *)
Theorem failure_not_reported (io_fail : nat -> bool) (now : nat -> nat) (w : World) :
  (forall i, i < 57 -> io_fail (io_ops w + i) = true ->
     exists w', main io_fail now w = (Raise IOFailure, w') /\ stdout w' = stdout w)
  /\ (forall r w', main io_fail now w = (r, w') -> stdout w' ≠ stdout w ->
        r = Ok tt
        /\ stdout w' = stdout w +:+ "Created restored_flowlist.zip" +:+ newline
        /\ exists a, archive_at w' zip_filename = Some a /\ finalized a = true).
Proof.
  split.
  - intros i Hi Hfail. apply (script_raises _ _ _ _ _ i); [|exact Hfail].
    by rewrite length_pairs, structure_total.
  - intros [[]|e] w' Hrun Hout.
    + split; [reflexivity|]. split.
      * apply script_cases in Hrun as [_ ->]. reflexivity.
      * eexists. split; [exact (main_archive _ _ _ _ Hrun)|reflexivity].
    + apply script_cases in Hrun as (_ & Hsame & _). contradiction.
Qed.

Lemma failure_not_reported_witness :
  3 < 57 /\ fault_at 3 (io_ops fresh_world + 3) = true
  /\ (exists w', main (fault_at 3) tick_clock fresh_world = (Raise IOFailure, w')
        /\ stdout w' = stdout fresh_world)
  /\ main no_faults tick_clock fresh_world = (Ok tt, fresh_result)
  /\ stdout fresh_result ≠ stdout fresh_world
  /\ Ok tt = Ok tt
  /\ stdout fresh_result
      = stdout fresh_world +:+ "Created restored_flowlist.zip" +:+ newline
  /\ exists a, archive_at fresh_result zip_filename = Some a /\ finalized a = true.
Proof.
  assert (3 < 57) as Hi by lia.
  assert (fault_at 3 (io_ops fresh_world + 3) = true) as Hfail by reflexivity.
  assert (main no_faults tick_clock fresh_world = (Ok tt, fresh_result)) as Hrun
    by (vm_compute; reflexivity).
  assert (stdout fresh_result ≠ stdout fresh_world) as Hout
    by (vm_compute; discriminate).
  split; [exact Hi|]. split; [exact Hfail|].
  split; [exact (proj1 (failure_not_reported (fault_at 3) tick_clock fresh_world) 3 Hi Hfail)|].
  split; [exact Hrun|]. split; [exact Hout|].
  exact (proj2 (failure_not_reported no_faults tick_clock fresh_world)
           (Ok tt) fresh_result Hrun Hout).
Defined.

(** The run whose third write fails: it raises, prints nothing, and leaves
    the two members written before the fault. *)
Example faulty_run :
  main (fault_at 3) tick_clock fresh_world = (Raise IOFailure, faulty_result)
  /\ stdout faulty_result = ""
  /\ (fun a => (entries a).*1) <$> archive_at faulty_result zip_filename
      = Some ["S/Learn Earn.txt"; "S/Productivity.txt"].
Proof. vm_compute. done. Qed.

(** C9: the program takes nothing but the world it runs in; whatever the
    run's end, the only file it touches is [restored_flowlist.zip], and a
    successful run appends to standard output the one line
    [Created restored_flowlist.zip]. *)
Theorem fixed_output (io_fail : nat -> bool) (now : nat -> nat) (w w' : World)
    (r : outcome unit) :
  main io_fail now w = (r, w') ->
  zip_filename = "restored_flowlist.zip"
  /\ (forall p, p ≠ "restored_flowlist.zip" -> archive_at w' p = archive_at w p)
  /\ (r = Ok tt ->
        is_Some (archive_at w' "restored_flowlist.zip")
        /\ stdout w' = stdout w +:+ "Created restored_flowlist.zip" +:+ newline).
Proof.
  intros Hrun. split; [reflexivity|]. split.
  - intros p Hp. exact (script_frame _ _ _ _ _ _ _ _ Hrun Hp).
  - intros ->. split.
    + rewrite (main_archive _ _ _ _ Hrun : archive_at w' "restored_flowlist.zip" = _). done.
    + apply script_cases in Hrun as [_ ->]. reflexivity.
Qed.

Lemma fixed_output_witness :
  main no_faults tick_clock fresh_world = (Ok tt, fresh_result)
  /\ zip_filename = "restored_flowlist.zip"
  /\ (forall p, p ≠ "restored_flowlist.zip" ->
        archive_at fresh_result p = archive_at fresh_world p)
  /\ is_Some (archive_at fresh_result "restored_flowlist.zip")
  /\ stdout fresh_result
      = stdout fresh_world +:+ "Created restored_flowlist.zip" +:+ newline.
Proof.
  assert (main no_faults tick_clock fresh_world = (Ok tt, fresh_result)) as Hrun
    by (vm_compute; reflexivity).
  destruct (fixed_output no_faults tick_clock fresh_world fresh_result (Ok tt) Hrun)
    as (Hname & Hframe & Hok).
  destruct (Hok eq_refl) as [Hsome Hout].
  split; [exact Hrun|]. split; [exact Hname|]. split; [exact Hframe|].
  split; [exact Hsome|exact Hout].
Defined.

Example fresh_run_stdout :
  stdout fresh_result = "Created restored_flowlist.zip" +:+ newline.
Proof. reflexivity. Qed.

(** ** The script on any table *)

(** X1: for any table with names that [zipfile] stores as given, a run that
    ends normally has made its open, one write per (tier, folder) pair and
    its close, none of which failed; it has appended to standard output
    exactly the line [Created <destination>], and it has changed no file but
    the destination. *)
Theorem script_success_report (io_fail : nat -> bool) (now : nat -> nat)
    (table : dict string (list string)) (out : string) (w w' : World) :
  zip_safe table ->
  script io_fail now table out w = (Ok tt, w') ->
  (forall i, i < total_folders table + 2 -> io_fail (io_ops w + i) = false)
  /\ io_ops w' = io_ops w + total_folders table + 2
  /\ stdout w' = stdout w +:+ ("Created " +:+ out) +:+ newline
  /\ forall p, p ≠ out -> archive_at w' p = archive_at w p.
Proof.
  intros _ Hrun. rewrite <- length_pairs.
  pose proof (fun p => script_frame io_fail now table out w w' (Ok tt) p Hrun) as Hframe.
  apply script_cases in Hrun as [Hok ->]. split; [exact Hok|].
  unfold success_world. cbn [disk io_ops stdout].
  split; [lia|]. split; [reflexivity|]. intros p Hp.
  specialize (Hframe p Hp). exact Hframe.
Qed.

Lemma script_success_report_witness :
  zip_safe odd_table
  /\ script no_faults tick_clock odd_table "out.zip" fresh_result
      = (Ok tt, (script no_faults tick_clock odd_table "out.zip" fresh_result).2)
  /\ (forall i, i < total_folders odd_table + 2 -> no_faults (io_ops fresh_result + i) = false)
  /\ io_ops (script no_faults tick_clock odd_table "out.zip" fresh_result).2
      = io_ops fresh_result + total_folders odd_table + 2
  /\ stdout (script no_faults tick_clock odd_table "out.zip" fresh_result).2
      = stdout fresh_result +:+ ("Created " +:+ "out.zip") +:+ newline
  /\ forall p, p ≠ "out.zip" ->
       archive_at (script no_faults tick_clock odd_table "out.zip" fresh_result).2 p
       = archive_at fresh_result p.
Proof.
  assert (zip_safe odd_table) as Hsafe by (unfold zip_safe, zip_name_ok; compute_done).
  assert (script no_faults tick_clock odd_table "out.zip" fresh_result
          = (Ok tt, (script no_faults tick_clock odd_table "out.zip" fresh_result).2)) as Hrun
    by (vm_compute; reflexivity).
  split; [exact Hsafe|]. split; [exact Hrun|].
  exact (script_success_report no_faults tick_clock odd_table "out.zip" fresh_result _
           Hsafe Hrun).
Defined.



(** The edge cases of [odd_table]: three entries, all of one path. *)
Example odd_table_entries :
  (expected_entries odd_table).*1 = ["a/b/c.txt"; "a/b/c.txt"; "a/b/c.txt"].
Proof. reflexivity. Qed.

(** X3: when the open fails, the script raises at once: the body and the
    close are not run, nothing is printed, and the disk is as it was, so an
    archive already at the destination is not truncated. *)
Theorem open_failure_keeps_disk (io_fail : nat -> bool) (now : nat -> nat)
    (table : dict string (list string)) (out : string) (w : World) :
  io_fail (io_ops w) = true ->
  exists w', script io_fail now table out w = (Raise IOFailure, w')
    /\ disk w' = disk w
    /\ stdout w' = stdout w
    /\ io_ops w' = io_ops w + 1.
Proof.
  intros Hopen. eexists. rewrite script_run. cbn zeta. rewrite Hopen.
  split; [reflexivity|]. cbn [disk io_ops stdout]. split; [reflexivity|].
  split; [reflexivity|lia].
Qed.

Lemma open_failure_keeps_disk_witness :
  fault_at 57 (io_ops fresh_result) = true
  /\ exists w', main (fault_at 57) tick_clock fresh_result = (Raise IOFailure, w')
    /\ disk w' = disk fresh_result
    /\ stdout w' = stdout fresh_result
    /\ io_ops w' = io_ops fresh_result + 1.
Proof.
  assert (fault_at 57 (io_ops fresh_result) = true) as Hopen by (vm_compute; reflexivity).
  split; [exact Hopen|].
  exact (open_failure_keeps_disk (fault_at 57) tick_clock structure zip_filename
           fresh_result Hopen).
Defined.



(** Without the slash condition the paths can collide, though the table has
    distinct tiers and no folder twice in a tier. *)
Example slash_collision :
  (expected_entries (dict_literal [("a", ["b/c"]); ("a/b", ["c"])])).*1
  = ["a/b/c.txt"; "a/b/c.txt"].
Proof. reflexivity. Qed.
